(** * The AI Buddy backend (main.py): text improvement and endpoint handlers

    A shallow embedding of [basic_improve], [tutor] and [test_database].

    Text is a list of 8-bit characters.  The case and whitespace tables are
    the ones Python's [str] uses on the ASCII range (code points below 128);
    characters above that range are left alone by [lower]/[upper] and are
    not whitespace, so the embedding describes the program on ASCII text. *)

From Stdlib Require Import Ascii String List Arith Bool Lia.
Import ListNotations.

(** ** Python [str] primitives used by main.py *)

Module PyStr.

Definition str := list ascii.

(** A literal. *)
Definition py (s : string) : str := list_ascii_of_string s.

Definition is_upper (c : ascii) : bool :=
  (65 <=? nat_of_ascii c) && (nat_of_ascii c <=? 90).

Definition is_lower (c : ascii) : bool :=
  (97 <=? nat_of_ascii c) && (nat_of_ascii c <=? 122).

(** [str.isspace] on the ASCII range: TAB..CR, FS..US and SPACE. *)
Definition is_space (c : ascii) : bool :=
  let n := nat_of_ascii c in
  ((9 <=? n) && (n <=? 13)) || ((28 <=? n) && (n <=? 32)).

Definition lower_char (c : ascii) : ascii :=
  if is_upper c then ascii_of_nat (nat_of_ascii c + 32) else c.

Definition upper_char (c : ascii) : ascii :=
  if is_lower c then ascii_of_nat (nat_of_ascii c - 32) else c.

(** [s.lower()] and [s.upper()] *)
Definition lower (s : str) : str := map lower_char s.
Definition upper (s : str) : str := map upper_char s.

(** [s.lstrip()], [s.rstrip()], [s.strip()] *)
Fixpoint lstrip (s : str) : str :=
  match s with
  | [] => []
  | c :: s' => if is_space c then lstrip s' else s
  end.

Fixpoint rstrip (s : str) : str :=
  match s with
  | [] => []
  | c :: s' =>
      match rstrip s' with
      | [] => if is_space c then [] else [c]
      | r => c :: r
      end
  end.

Definition strip (s : str) : str := rstrip (lstrip s).

(** [a == b] *)
Fixpoint str_eqb (a b : str) : bool :=
  match a, b with
  | [], [] => true
  | x :: a', y :: b' => Ascii.eqb x y && str_eqb a' b'
  | _, _ => false
  end.

(** [s.startswith(p)] *)
Fixpoint startswith (s p : str) : bool :=
  match p with
  | [] => true
  | y :: p' =>
      match s with
      | [] => false
      | x :: s' => Ascii.eqb x y && startswith s' p'
      end
  end.

(** [s.endswith(p)] *)
Definition endswith (s p : str) : bool := startswith (rev s) (rev p).

(** [needle in hay]: substring test. *)
Fixpoint str_in (needle hay : str) : bool :=
  startswith hay needle ||
  match hay with
  | [] => false
  | _ :: hay' => str_in needle hay'
  end.

(** Left-to-right scan of [s.replace(old, new)] for a non-empty [old]:
    [skip] counts the characters of the current match still to be
    dropped, so that matches never overlap. *)
Fixpoint replace_from (skip : nat) (s old new : str) : str :=
  match s with
  | [] => []
  | c :: s' =>
      match skip with
      | S k => replace_from k s' old new
      | O =>
          if startswith s old
          then new ++ replace_from (length old - 1) s' old new
          else c :: replace_from 0 s' old new
      end
  end.

(** [s.replace(old, new)]; an empty [old] matches before every character
    and at the end. *)
Definition replace (s old new : str) : str :=
  match old with
  | [] => new ++ flat_map (fun c => c :: new) s
  | _ => replace_from 0 s old new
  end.

(** [s[-1]], [s[:-1]], and the slice [l[:n]] of a string or a list *)
Definition last_char (s : str) : option ascii :=
  match rev s with
  | [] => None
  | c :: _ => Some c
  end.

Definition drop_last (s : str) : str := removelast s.

Definition take {A : Type} (n : nat) (l : list A) : list A := firstn n l.

(** Truth value of a string and of a list. *)
Definition truthy (s : str) : bool :=
  match s with [] => false | _ => true end.

End PyStr.

Import PyStr.

(** ** main.py *)

Module Main.

(** [COMMON_CORRECTIONS], in insertion order, which is the order
    [dict.items()] iterates in. *)
Definition COMMON_CORRECTIONS : list (str * str) :=
  [ (py "i am", py "I am");
    (py "i", py "I");
    (py "dont", py "don't");
    (py "doesnt", py "doesn't");
    (py "cant", py "can't");
    (py "wont", py "won't");
    (py "im", py "I'm");
    (py "u", py "you");
    (py "ur", py "your");
    (py "r", py "are");
    (py "there english", py "their English");
    (py "there are", py "there are");
    (py "they is", py "they are");
    (py "he have", py "he has");
    (py "she have", py "she has");
    (py "i has", py "I have") ].

Definition END_PROMPTS : list str :=
  [ py "Tell me about your day in three sentences.";
    py "Describe your favorite teacher and why you like them.";
    py "What is your hobby? Explain it like you are teaching a friend.";
    py "Make a short plan for tomorrow using future tense." ].

Definition QUESTION_LEADS : list str :=
  [ py "what"; py "why"; py "how"; py "where"; py "when"; py "who";
    py "which"; py "do "; py "does "; py "is "; py "are "; py "can ";
    py "could "; py "would " ].

Definition GREAT_JOB : str :=
  py "Great job! Your sentence looks good. Try to add more detail.".

(** The f-string of line 69. *)
Definition consider (right' wrong : str) : str :=
  py "Consider using '" ++ right' ++ py "' instead of '" ++ wrong ++ py "'.".

(** One iteration of the loop over the dictionary (lines 66-69), on the
    pair of the running text and the suggestions so far. *)
Definition apply_correction (st : str * list str) (rule : str * str)
  : str * list str :=
  let '(improved, suggestions) := st in
  let '(wrong, right') := rule in
  if str_in wrong improved
  then (replace improved wrong right', suggestions ++ [consider right' wrong])
  else (improved, suggestions).

Definition apply_corrections (rules : list (str * str)) (st : str * list str)
  : str * list str :=
  fold_left apply_correction rules st.

(** Lines 72-73. *)
Definition capitalize_first (improved : str) : str :=
  match improved with
  | [] => []
  | c :: rest => upper [c] ++ rest
  end.

(** Lines 76-77. *)
Definition add_period (improved : str) : str :=
  match last_char improved with
  | None => improved
  | Some c => if negb (str_in [c] (py ".?!")) then improved ++ py "." else improved
  end.

(** Lines 80-82. *)
Definition question_mark (improved : str) : str :=
  if existsb (fun q => startswith (lower improved) q) QUESTION_LEADS
  then if endswith improved (py ".")
       then drop_last improved ++ py "?"
       else improved
  else improved.

Definition basic_improve (text : str) : str * list str :=
  let original := strip text in
  let lowered := lower original in
  let '(improved, suggestions) := apply_corrections COMMON_CORRECTIONS (lowered, []) in
  let improved := capitalize_first improved in
  let improved := add_period improved in
  let improved := question_mark improved in
  let suggestions :=
    if str_eqb improved original then suggestions ++ [GREAT_JOB] else suggestions in
  (improved, suggestions).

(** *** The tutor endpoint

    [tutor] runs in a writer monad that records the argument of every
    call to [basic_improve], so that which calls a request causes can be
    stated.  [random.choice] draws the index [rnd]. *)

Definition traced (A : Type) : Type := (list str * A)%type.

Definition ret {A : Type} (a : A) : traced A := ([], a).

Definition bind {A B : Type} (m : traced A) (k : A -> traced B) : traced B :=
  let '(l1, a) := m in
  let '(l2, b) := k a in
  (l1 ++ l2, b).

Definition calls {A : Type} (m : traced A) : list str := fst m.
Definition value {A : Type} (m : traced A) : A := snd m.

Definition call_basic_improve (text : str) : traced (str * list str) :=
  ([text], basic_improve text).

Record TutorRequest := mkTutorRequest
  { message : str;
    level : option str }.

(** Construction of the request from the body: an omitted [level] takes
    the declared default, a [null] stays [None]. *)
Definition TutorRequest_parse (message : str) (level : option (option str))
  : TutorRequest :=
  mkTutorRequest message
    (match level with
     | None => Some (py "beginner")
     | Some l => l
     end).

Record TutorResponse := mkTutorResponse
  { reply : str;
    suggestions : list str;
    prompt : option str }.

(** [req.level == v] *)
Definition level_eqb (l : option str) (v : str) : bool :=
  match l with
  | Some s => str_eqb s v
  | None => false
  end.

(** [random.choice(l)] with [rnd] the random draw. *)
Definition random_choice (rnd : nat) (l : list str) : str :=
  nth (rnd mod length l) l [].

Definition tutor (rnd : nat) (req : TutorRequest) : traced TutorResponse :=
  let user_text := strip (message req) in
  if negb (truthy user_text)
  then ret (mkTutorResponse
              (py "I didn't hear anything. Try saying a simple sentence about your day.")
              [py "Speak slowly and clearly."; py "Start with: 'Today I ...'"]
              (Some (py "Say: 'Today I woke up early and ...'")))
  else
    bind (call_basic_improve user_text) (fun '(improved, tips) =>
    let reply :=
      if level_eqb (level req) (py "beginner")
      then py "You said: '" ++ user_text ++ py "'. Here is a clearer version: '"
           ++ improved ++ py "'. "
           ++ py "Well done! Try to use full sentences and simple tenses."
      else if level_eqb (level req) (py "advanced")
      then py "Your idea is good. A more natural phrasing is: '" ++ improved ++ py "'. "
           ++ py "Consider adding specific details and varied vocabulary."
      else py "Nice! You can say: '" ++ improved ++ py "'. "
           ++ py "Keep practicing your rhythm and pronunciation." in
    let prompt := random_choice rnd END_PROMPTS in
    ret (mkTutorResponse
           reply
           (match tips with
            | [] => [py "Great effort! Add one more sentence to continue."]
            | _ => tips
            end)
           (Some prompt))).

(** *** The diagnostic endpoint

    The optional [database] module is not part of the program; what the
    handler can observe of it is taken as input: the outcome of the
    import, and for a handle the outcome of looking up its [name]
    attribute and the outcome of [list_collection_names()].

    Exceptions are told apart as the except clauses do: [ImportError]
    (and its subclasses), any other exception of class [Exception], and
    the exceptions outside class [Exception] ([SystemExit],
    [KeyboardInterrupt] and the like), which no clause of the handler
    catches. *)

Inductive exn :=
| ImportError (msg : str)
| OtherException (msg : str)
| BaseException (msg : str).

(** [str(e)] *)
Definition exn_str (e : exn) : str :=
  match e with
  | ImportError msg => msg
  | OtherException msg => msg
  | BaseException msg => msg
  end.

(** [isinstance(e, Exception)] *)
Definition is_exception (e : exn) : bool :=
  match e with
  | BaseException _ => false
  | _ => true
  end.

Inductive result (A : Type) :=
| Ok (a : A)
| Raise (e : exn).
Arguments Ok {A} a.
Arguments Raise {A} e.

(** A handle.  [db_name] is what [db.name if hasattr(db, 'name') else ...]
    meets: [Ok None] when the handle has no such attribute ([hasattr]
    answers [False], also when the lookup raises [AttributeError]),
    [Ok (Some n)] when the lookup gives [n], and [Raise e] when the lookup
    raises anything else, which [hasattr] lets through.
    [list_collection_names] is the outcome of the call together with the
    slice of its result: a result that cannot be sliced raises inside the
    same try. *)
Record Database := mkDatabase
  { db_name : result (option str);
    list_collection_names : result (list str) }.

Record TestResponse := mkTestResponse
  { backend : str;
    database : str;
    database_url : option str;
    database_name : option str;
    connection_status : str;
    collections : list str }.

(** The handler updates the [response] dict in place; an exception leaves
    the updates made before it. *)
Definition handler (A : Type) : Type := TestResponse -> TestResponse * result A.

Definition hbind {A B : Type} (m : handler A) (k : A -> handler B) : handler B :=
  fun r =>
    match m r with
    | (r', Ok a) => k a r'
    | (r', Raise e) => (r', Raise e)
    end.

Definition lift {A : Type} (x : result A) : handler A := fun r => (r, x).

(** [try: body except ...: handle e]; [handle] answers [None] for an
    exception no clause matches, which then propagates. *)
Definition try_except {A : Type} (body : handler A) (handle : exn -> option (handler A))
  : handler A :=
  fun r =>
    match body r with
    | (r', Ok a) => (r', Ok a)
    | (r', Raise e) =>
        match handle e with
        | Some h => h r'
        | None => (r', Raise e)
        end
    end.

Definition set_database (v : str) : handler unit :=
  fun r => (mkTestResponse (backend r) v (database_url r) (database_name r)
              (connection_status r) (collections r), Ok tt).

Definition set_database_url (v : option str) : handler unit :=
  fun r => (mkTestResponse (backend r) (database r) v (database_name r)
              (connection_status r) (collections r), Ok tt).

Definition set_database_name (v : option str) : handler unit :=
  fun r => (mkTestResponse (backend r) (database r) (database_url r) v
              (connection_status r) (collections r), Ok tt).

Definition set_connection_status (v : str) : handler unit :=
  fun r => (mkTestResponse (backend r) (database r) (database_url r) (database_name r)
              v (collections r), Ok tt).

Definition set_collections (v : list str) : handler unit :=
  fun r => (mkTestResponse (backend r) (database r) (database_url r) (database_name r)
              (connection_status r) v, Ok tt).

Notation "x <- m ;; k" := (hbind m (fun x => k))
  (at level 61, m at next level, right associativity).
Notation "m ;;; k" := (hbind m (fun _ => k))
  (at level 61, right associativity).

(** Truth value of [os.getenv(key)]. *)
Definition getenv_truthy (environ : str -> option str) (key : str) : bool :=
  match environ key with
  | Some v => truthy v
  | None => false
  end.

Definition test_database_body
  (import_db : result (option Database)) (environ : str -> option str)
  : handler unit :=
  try_except
    (db <- lift import_db ;;
     match db with
     | Some db =>
         set_database (py "✅ Available") ;;;
         set_database_url (Some (py "✅ Configured")) ;;;
         name <- lift (db_name db) ;;
         set_database_name
           (Some (match name with
                  | Some n => n
                  | None => py "✅ Connected"
                  end)) ;;;
         set_connection_status (py "Connected") ;;;
         try_except
           (collections <- lift (list_collection_names db) ;;
            set_collections (take 10 collections) ;;;
            set_database (py "✅ Connected & Working"))
           (fun e =>
              if is_exception e
              then Some (set_database
                           (py "⚠️  Connected but Error: " ++ take 50 (exn_str e)))
              else None)
     | None => set_database (py "⚠️  Available but not initialized")
     end)
    (fun e =>
       match e with
       | ImportError _ =>
           Some (set_database
                   (py "❌ Database module not found (run enable-database first)"))
       | OtherException _ =>
           Some (set_database (py "❌ Error: " ++ take 50 (exn_str e)))
       | BaseException _ => None
       end) ;;;
  set_database_url
    (Some (if getenv_truthy environ (py "DATABASE_URL")
           then py "✅ Set" else py "❌ Not Set")) ;;;
  set_database_name
    (Some (if getenv_truthy environ (py "DATABASE_NAME")
           then py "✅ Set" else py "❌ Not Set")).

Definition test_database
  (import_db : result (option Database)) (environ : str -> option str)
  : result TestResponse :=
  let response :=
    mkTestResponse (py "✅ Running") (py "❌ Not Available") None None
      (py "Not Connected") [] in
  match test_database_body import_db environ response with
  | (response, Ok _) => Ok response
  | (_, Raise e) => Raise e
  end.

End Main.

Import Main.

(** ** Vocabulary of the specification's properties *)

Module Spec.

Definition is_terminal (c : ascii) : bool :=
  Ascii.eqb c "."%char || Ascii.eqb c "?"%char || Ascii.eqb c "!"%char.

(** The text contains a key of the correction dictionary as a substring. *)
Definition has_correction_key (s : str) : bool :=
  existsb (fun rule => str_in (fst rule) s) COMMON_CORRECTIONS.

(** The text starts, whatever its case, with an interrogative lead word. *)
Definition has_question_lead (s : str) : bool :=
  existsb (fun q => startswith (lower s) q) QUESTION_LEADS.

Definition ends_terminal (s : str) : bool :=
  match last_char s with
  | Some c => is_terminal c
  | None => false
  end.

(** The first character is an upper-case letter. *)
Definition starts_upper (s : str) : bool :=
  match s with
  | c :: _ => is_upper c
  | [] => false
  end.

(** No character after the first is an upper-case letter. *)
Definition rest_not_upper (s : str) : bool :=
  forallb (fun c => negb (is_upper c)) (tl s).

(** Convergence within two passes, as section 8 words it: the second pass
    has no suggestion, and its string is the first pass's, possibly with
    terminal punctuation added. *)
Definition converges_in_two_passes (text : str) : Prop :=
  let first := fst (basic_improve text) in
  let second := basic_improve first in
  snd second = [] /\
  exists p, forallb is_terminal p = true /\ fst second = first ++ p.

(** A sentence that needs no change, as section 8 words it. *)
Definition needs_no_change (text : str) : Prop :=
  let original := strip text in
  original <> [] /\
  has_correction_key (lower original) = false /\
  has_question_lead original = false /\
  ends_terminal original = true /\
  starts_upper original = true.

(** The three reply templates of the tutor. *)
Definition template_A (user_text improved : str) : str :=
  py "You said: '" ++ user_text ++ py "'. Here is a clearer version: '" ++ improved
  ++ py "'. Well done! Try to use full sentences and simple tenses.".

Definition template_B (improved : str) : str :=
  py "Your idea is good. A more natural phrasing is: '" ++ improved
  ++ py "'. Consider adding specific details and varied vocabulary.".

Definition template_C (improved : str) : str :=
  py "Nice! You can say: '" ++ improved
  ++ py "'. Keep practicing your rhythm and pronunciation.".

Definition EMPTY_REPLY : TutorResponse :=
  mkTutorResponse
    (py "I didn't hear anything. Try saying a simple sentence about your day.")
    [py "Speak slowly and clearly."; py "Start with: 'Today I ...'"]
    (Some (py "Say: 'Today I woke up early and ...'")).

Definition FALLBACK : str := py "Great effort! Add one more sentence to continue.".









End Spec.

Import Spec.

(** ** What the dictionary pass keeps true of a text *)

Module Shape.

(** Characters a corrected text is made of: those of a lower-cased text,
    and the two upper-case letters the replacements bring in. *)
Definition pass_char (c : ascii) : bool :=
  negb (is_upper c) || Ascii.eqb c "I"%char || Ascii.eqb c "E"%char.

Definition mem (c : ascii) (s : str) : bool := existsb (Ascii.eqb c) s.

Definition head_not_space (s : str) : bool :=
  match s with
  | [] => false
  | h :: _ => negb (is_space h)
  end.

(** What is used of a rule: its key is not empty; its replacement starts
    with a character that is not a space and is made of [pass_char]s; a
    key with an "r" has a replacement with an "r"; and so has a
    replacement with an "E". *)
Definition rule_ok (rule : str * str) : bool :=
  truthy (fst rule)
  && head_not_space (snd rule)
  && forallb pass_char (snd rule)
  && implb (mem "r"%char (fst rule)) (mem "r"%char (snd rule))
  && implb (mem "E"%char (snd rule)) (mem "r"%char (snd rule)).

Definition passed (s : str) : Prop :=
  head_not_space s = true /\
  forallb pass_char s = true /\
  (In "E"%char s -> In "r"%char s).

End Shape.

Import Shape.

(** ** Vocabulary of further properties *)

Module More.

(** [l1] is [l2] with some elements left out, the order kept. *)
Inductive subseq {A : Type} : list A -> list A -> Prop :=
| subseq_nil : subseq [] []
| subseq_skip (x : A) (l1 l2 : list A) : subseq l1 l2 -> subseq l1 (x :: l2)
| subseq_take (x : A) (l1 l2 : list A) : subseq l1 l2 -> subseq (x :: l1) (x :: l2).

(** The suggestion a rule makes when it applies. *)
Definition rule_suggestion (rule : str * str) : str :=
  consider (snd rule) (fst rule).

(** Every suggestion [basic_improve] can make, in the order it makes them. *)
Definition ALL_SUGGESTIONS : list str :=
  map rule_suggestion COMMON_CORRECTIONS ++ [GREAT_JOB].

(** The rules whose key has no "i", apart from the first two rules: the
    only ones that can apply once the rule for "i" has run. *)
Definition REACHABLE_CORRECTIONS : list (str * str) :=
  firstn 2 COMMON_CORRECTIONS
  ++ filter (fun rule => negb (mem "i"%char (fst rule))) (skipn 2 COMMON_CORRECTIONS).

Definition REACHABLE_SUGGESTIONS : list str :=
  map rule_suggestion REACHABLE_CORRECTIONS ++ [GREAT_JOB].

(** The first character is a lower-case letter. *)
Definition starts_lower (s : str) : bool :=
  match s with
  | c :: _ => is_lower c
  | [] => false
  end.

(** A text between single quotes, as the reply templates show it. *)
Definition quoted (s : str) : str := py "'" ++ s ++ py "'".

(** The import gave a handle that is not null and the lookup of its name
    returned. *)
Definition handle_ready (import_db : result (option Database)) : bool :=
  match import_db with
  | Ok (Some db) =>
      match db_name db with
      | Ok _ => true
      | Raise _ => false
      end
  | _ => false
  end.

(** The fixed prompt of the answer to a blank message. *)
Definition EMPTY_PROMPT : str := py "Say: 'Today I woke up early and ...'".

End More.

Import More.

(** Case analysis on the 256 characters. *)
Ltac each_char c :=
  destruct c as [[] [] [] [] [] [] [] []]; vm_compute; try reflexivity;
  try discriminate; auto.

(** Running the diagnostic handler on a given import outcome. *)
Ltac run_test_database :=
  unfold test_database, test_database_body, try_except, hbind, lift,
    set_database, set_database_url, set_database_name,
    set_connection_status, set_collections;
  cbn -[py take getenv_truthy].

(** ** Worked inputs of [basic_improve] *)

(** C1, as the specification states it, fails: on "what is your name" the
    dictionary pass does change the text, and the result is not
    "What is your name?". *)
Lemma what_is_your_name_is_rewritten :
  fst (apply_corrections COMMON_CORRECTIONS (py "what is your name", []))
    <> py "what is your name"
  /\ fst (basic_improve (py "what is your name")) <> py "What is your name?".
Proof.
  split; vm_compute; discriminate.
Qed.

(** C1, amended: on "what is your name" the keys "i", "u", "ur" and "r"
    match inside the words, so the dictionary pass yields
    "what Is yoyoyouare name" with four suggestions; capitalization, the
    period and the interrogative check on "what" then give
    "What Is yoyoyouare name?". *)
Theorem basic_improve_what_is_your_name :
  apply_corrections COMMON_CORRECTIONS (py "what is your name", [])
    = (py "what Is yoyoyouare name",
       [ py "Consider using 'I' instead of 'i'.";
         py "Consider using 'you' instead of 'u'.";
         py "Consider using 'your' instead of 'ur'.";
         py "Consider using 'are' instead of 'r'." ])
  /\ basic_improve (py "what is your name")
     = (py "What Is yoyoyouare name?",
        [ py "Consider using 'I' instead of 'i'.";
          py "Consider using 'you' instead of 'u'.";
          py "Consider using 'your' instead of 'ur'.";
          py "Consider using 'are' instead of 'r'." ]).
Proof.
  split; vm_compute; reflexivity.
Qed.

(** C3, as the specification states it, fails: the empty string does get a
    suggestion. *)
Lemma basic_improve_empty_has_suggestion :
  basic_improve (py "") <> (py "", []).
Proof.
  vm_compute. discriminate.
Qed.

(** C3, amended: for an input that is empty after trimming the improved
    string is empty (capitalization, punctuation and the interrogative step
    leave it so), no correction is suggested, and the only suggestion is the
    encouragement, since the empty result equals the empty original. *)
Theorem basic_improve_blank (text : str) :
  strip text = [] ->
  basic_improve text = ([], [GREAT_JOB]).
Proof.
  intros Hblank. unfold basic_improve. rewrite Hblank.
  vm_compute. reflexivity.
Qed.

Lemma basic_improve_blank_witness :
  strip (py "  ") = [] /\ basic_improve (py "  ") = ([], [GREAT_JOB]).
Proof.
  split; [reflexivity | apply (basic_improve_blank (py "  ")); reflexivity].
Defined.

(** C5: "i dont know" becomes "I don't know." with exactly two suggestions,
    the one of the "i" rule before the one of the "dont" rule. *)
Theorem basic_improve_i_dont_know :
  basic_improve (py "i dont know")
  = (py "I don't know.",
     [ py "Consider using 'I' instead of 'i'.";
       py "Consider using 'don't' instead of 'dont'." ]).
Proof.
  vm_compute. reflexivity.
Qed.

(** ** String equality *)

Lemma str_eqb_eq (a b : str) : str_eqb a b = true <-> a = b.
Proof.
  revert b. induction a as [|x a IH]; intros [|y b]; simpl; split;
    try congruence; try reflexivity.
  - intros H. apply andb_true_iff in H as [Hxy Hab].
    apply Ascii.eqb_eq in Hxy. apply IH in Hab. congruence.
  - intros H. injection H as -> ->.
    rewrite Ascii.eqb_refl. simpl. apply IH. reflexivity.
Qed.

Lemma str_eqb_refl (a : str) : str_eqb a a = true.
Proof. apply str_eqb_eq. reflexivity. Qed.

Lemma str_eqb_neq (a b : str) : str_eqb a b = false <-> a <> b.
Proof.
  split.
  - intros H Heq. apply str_eqb_eq in Heq. congruence.
  - intros H. destruct (str_eqb a b) eqn:E; [|reflexivity].
    apply str_eqb_eq in E. contradiction.
Qed.

Lemma level_eqb_eq (l : option str) (v : str) :
  level_eqb l v = true <-> l = Some v.
Proof.
  destruct l as [s|]; simpl.
  - rewrite str_eqb_eq. split; congruence.
  - split; discriminate.
Qed.

Lemma truthy_false (s : str) : truthy s = false <-> s = [].
Proof. destruct s; simpl; split; congruence. Qed.

(** ** The tutor endpoint *)

Section Tutor.

Variable rnd : nat.

(** For a message that is not blank the handler calls [basic_improve]
    once, on the trimmed message, and builds its answer from the result. *)
Lemma tutor_nonblank (req : TutorRequest) :
  strip (message req) <> [] ->
  exists r,
    tutor rnd req = ([strip (message req)], r) /\
    reply r =
      (let improved := fst (basic_improve (strip (message req))) in
       if level_eqb (level req) (py "beginner")
       then template_A (strip (message req)) improved
       else if level_eqb (level req) (py "advanced")
            then template_B improved
            else template_C improved) /\
    suggestions r =
      match snd (basic_improve (strip (message req))) with
      | [] => [FALLBACK]
      | tips => tips
      end.
Proof.
  intros Hne. unfold tutor.
  destruct (truthy (strip (message req))) eqn:Ht.
  2:{ apply truthy_false in Ht. contradiction. }
  cbn [negb]. unfold bind, call_basic_improve, ret.
  destruct (basic_improve (strip (message req))) as [improved tips].
  eexists. split; [reflexivity|]. cbn [reply suggestions fst snd].
  split.
  - unfold template_A, template_B, template_C.
    destruct (level_eqb (level req) (py "beginner"));
      [|destruct (level_eqb (level req) (py "advanced"))];
      repeat rewrite <- app_assoc; reflexivity.
  - destruct tips; reflexivity.
Qed.

End Tutor.

(** C4, as the specification states it, fails: an unrecognized level does
    not get template A. *)
Lemma tutor_unrecognized_level_not_A :
  reply (value (tutor 0 (mkTutorRequest (py "hello") (Some (py "expert")))))
  <> template_A (py "hello") (fst (basic_improve (py "hello"))).
Proof.
  vm_compute. discriminate.
Qed.

(** C4, amended: for a message that is not blank, level "beginner" (also
    what an omitted level defaults to) yields template A, which quotes the
    trimmed original and the improved text; level "advanced" yields
    template B, built from the improved text alone; every other level,
    "intermediate", an unrecognized one or null, yields the third template,
    built from the improved text alone. *)
Theorem tutor_reply_by_level (rnd : nat) (msg : str) (lvl : option str) :
  strip msg <> [] ->
  let improved := fst (basic_improve (strip msg)) in
  let answer := reply (value (tutor rnd (mkTutorRequest msg lvl))) in
  level (TutorRequest_parse msg None) = Some (py "beginner") /\
  (lvl = Some (py "beginner") -> answer = template_A (strip msg) improved) /\
  (lvl = Some (py "advanced") -> answer = template_B improved) /\
  (lvl <> Some (py "beginner") -> lvl <> Some (py "advanced") ->
   answer = template_C improved).
Proof.
  intros Hne improved answer.
  destruct (tutor_nonblank rnd (mkTutorRequest msg lvl) Hne) as (r & Hrun & Hreply & _).
  assert (Hanswer : answer = reply r) by (unfold answer; rewrite Hrun; reflexivity).
  cbn [message level] in Hreply. fold improved in Hreply.
  split; [reflexivity|]. rewrite Hanswer, Hreply. repeat split.
  - intros ->. reflexivity.
  - intros ->. reflexivity.
  - intros HnA HnB.
    destruct (level_eqb lvl (py "beginner")) eqn:EA.
    { apply level_eqb_eq in EA. contradiction. }
    destruct (level_eqb lvl (py "advanced")) eqn:EB.
    { apply level_eqb_eq in EB. contradiction. }
    reflexivity.
Qed.

Lemma tutor_reply_by_level_witness :
  strip (py "hello") <> [] /\
  reply (value (tutor 0 (mkTutorRequest (py "hello") (Some (py "expert")))))
  = template_C (fst (basic_improve (py "hello"))).
Proof.
  assert (Hne : strip (py "hello") <> []) by (vm_compute; discriminate).
  split; [exact Hne|].
  apply (tutor_reply_by_level 0 (py "hello") (Some (py "expert")) Hne);
    intros H; vm_compute in H; discriminate.
Defined.

(** C6: a request whose message is blank gets, whatever its level, the
    fixed reply, the fixed two suggestions and the fixed prompt, and
    [basic_improve] is not called. *)
Theorem tutor_blank_message (rnd : nat) (req : TutorRequest) :
  strip (message req) = [] ->
  calls (tutor rnd req) = [] /\
  value (tutor rnd req) = EMPTY_REPLY /\
  reply EMPTY_REPLY
  = py "I didn't hear anything. Try saying a simple sentence about your day." /\
  length (suggestions EMPTY_REPLY) = 2.
Proof.
  intros Hblank. unfold tutor. rewrite Hblank. cbn.
  repeat split; reflexivity.
Qed.

Lemma tutor_blank_message_witness :
  strip (message (mkTutorRequest (py "   ") (Some (py "advanced")))) = [] /\
  calls (tutor 3 (mkTutorRequest (py "   ") (Some (py "advanced")))) = [] /\
  value (tutor 3 (mkTutorRequest (py "   ") (Some (py "advanced")))) = EMPTY_REPLY.
Proof.
  split; [reflexivity|].
  pose proof (tutor_blank_message 3 (mkTutorRequest (py "   ") (Some (py "advanced")))
                eq_refl) as (Hc & Hv & _).
  split; assumption.
Defined.

(** C8: for a message that is not blank, the response's suggestions are the
    ones [basic_improve] returned for the trimmed message when there are
    any, and otherwise the single fallback encouragement; they are never
    empty. *)
Theorem tutor_suggestions (rnd : nat) (req : TutorRequest) :
  strip (message req) <> [] ->
  let tips := snd (basic_improve (strip (message req))) in
  let given := suggestions (value (tutor rnd req)) in
  (tips <> [] -> given = tips) /\
  (tips = [] -> given = [FALLBACK]) /\
  given <> [].
Proof.
  intros Hne tips given.
  destruct (tutor_nonblank rnd req Hne) as (r & Hrun & _ & Hsugg).
  assert (Hgiven : given = suggestions r) by (unfold given; rewrite Hrun; reflexivity).
  fold tips in Hsugg. rewrite Hgiven, Hsugg.
  destruct tips as [|t tips']; repeat split; try congruence; discriminate.
Qed.

Lemma tutor_suggestions_witness :
  strip (message (mkTutorRequest (py "hello") None)) <> [] /\
  suggestions (value (tutor 1 (mkTutorRequest (py "hello") None))) = [FALLBACK].
Proof.
  assert (Hne : strip (message (mkTutorRequest (py "hello") None)) <> [])
    by (vm_compute; discriminate).
  split; [exact Hne|].
  apply (tutor_suggestions 1 (mkTutorRequest (py "hello") None) Hne).
  reflexivity.
Defined.

(** ** The diagnostic endpoint *)




(** ** Characters *)

Lemma lower_char_not_upper (c : ascii) : is_upper (lower_char c) = false.
Proof. each_char c. Qed.

Lemma lower_char_fix (c : ascii) : is_upper c = false -> lower_char c = c.
Proof. unfold lower_char. intros ->. reflexivity. Qed.

Lemma upper_lower_upper (c : ascii) :
  upper_char (lower_char (upper_char c)) = upper_char c.
Proof. each_char c. Qed.

Lemma upper_lower_of_upper (c : ascii) :
  is_upper c = true -> upper_char (lower_char c) = c.
Proof. each_char c. Qed.

Lemma is_space_lower_char (c : ascii) : is_space (lower_char c) = is_space c.
Proof. each_char c. Qed.

Lemma is_space_upper_char (c : ascii) : is_space (upper_char c) = is_space c.
Proof. each_char c. Qed.

Lemma lower_upper_char (c : ascii) :
  is_upper c = false -> lower_char (upper_char c) = c.
Proof. each_char c. Qed.

Lemma str_in_terminal (c : ascii) : str_in [c] (py ".?!") = is_terminal c.
Proof. each_char c. Qed.

Lemma is_terminal_not_space (c : ascii) : is_terminal c = true -> is_space c = false.
Proof. each_char c. Qed.

Lemma is_terminal_cases (c : ascii) :
  is_terminal c = true -> c = "."%char \/ c = "?"%char \/ c = "!"%char.
Proof.
  unfold is_terminal. intros H.
  apply orb_true_iff in H as [H|H]; [apply orb_true_iff in H as [H|H]|];
    apply Ascii.eqb_eq in H; auto.
Qed.

(** ** Ends of a string *)

Lemma last_char_cons (c : ascii) (s : str) :
  last_char (c :: s) = Some (match last_char s with Some x => x | None => c end).
Proof.
  unfold last_char. simpl. destruct (rev s); reflexivity.
Qed.

Lemma last_char_snoc (s : str) (c : ascii) : last_char (s ++ [c]) = Some c.
Proof.
  unfold last_char. rewrite rev_app_distr. reflexivity.
Qed.

Lemma last_char_none (s : str) : last_char s = None -> s = [].
Proof.
  destruct s as [|c s]; [reflexivity|]. rewrite last_char_cons. discriminate.
Qed.

Lemma last_char_cons_cons (c x : ascii) (s : str) :
  last_char (c :: x :: s) = last_char (x :: s).
Proof.
  rewrite (last_char_cons c). rewrite last_char_cons. reflexivity.
Qed.

Lemma rstrip_fix (s : str) :
  (forall c, last_char s = Some c -> is_space c = false) -> rstrip s = s.
Proof.
  induction s as [|c s IH]; intros Hlast; [reflexivity|].
  destruct s as [|x s'].
  - simpl. rewrite (Hlast c); reflexivity.
  - assert (Hs : rstrip (x :: s') = x :: s').
    { apply IH. intros d Hd. apply Hlast. rewrite last_char_cons_cons. exact Hd. }
    change (rstrip (c :: x :: s'))
      with (match rstrip (x :: s') with
            | [] => if is_space c then [] else [c]
            | r => c :: r
            end).
    rewrite Hs. reflexivity.
Qed.

Lemma rstrip_head (c : ascii) (s : str) :
  is_space c = false -> exists t, rstrip (c :: s) = c :: t.
Proof.
  intros Hc. simpl. destruct (rstrip s) as [|x r].
  - rewrite Hc. exists []. reflexivity.
  - exists (x :: r). reflexivity.
Qed.

Lemma lstrip_head (s : str) (c : ascii) (t : str) :
  lstrip s = c :: t -> is_space c = false.
Proof.
  induction s as [|a s IH]; simpl; [discriminate|].
  destruct (is_space a) eqn:Ha; [exact IH|].
  intros H. injection H as <- _. exact Ha.
Qed.

Lemma strip_head (s : str) (c : ascii) (t : str) :
  strip s = c :: t -> is_space c = false.
Proof.
  unfold strip. destruct (lstrip s) as [|a l] eqn:Hl; [discriminate|].
  pose proof (lstrip_head _ _ _ Hl) as Ha.
  destruct (rstrip_head a l Ha) as [t' Ht']. rewrite Ht'.
  intros H. injection H as <- _. exact Ha.
Qed.

Lemma strip_fix (c : ascii) (t : str) :
  is_space c = false ->
  (forall x, last_char (c :: t) = Some x -> is_space x = false) ->
  strip (c :: t) = c :: t.
Proof.
  intros Hc Hlast. unfold strip. simpl. rewrite Hc.
  apply rstrip_fix. exact Hlast.
Qed.

(** ** Substrings and replacement *)

Lemma startswith_app (s p : str) :
  startswith s p = true -> s = p ++ skipn (length p) s.
Proof.
  revert s. induction p as [|y p IH]; intros s; simpl; [reflexivity|].
  destruct s as [|x s]; [discriminate|].
  intros H. apply andb_true_iff in H as [Hxy Hsp].
  apply Ascii.eqb_eq in Hxy. subst y. simpl. f_equal. apply IH. exact Hsp.
Qed.

Lemma startswith_nil (p : str) : p <> [] -> startswith [] p = false.
Proof. destruct p; [congruence | reflexivity]. Qed.

Lemma str_in_single (c : ascii) (s : str) : str_in [c] s = true <-> In c s.
Proof.
  induction s as [|x s IH]; simpl.
  - split; [discriminate | tauto].
  - replace (startswith s []) with true by (destruct s; reflexivity).
    rewrite andb_true_r, orb_true_iff, IH, Ascii.eqb_eq. tauto.
Qed.

Section Replace.

Variables old new : str.
Hypothesis old_not_empty : old <> [].

Lemma replace_nonempty_old (s : str) : replace s old new = replace_from 0 s old new.
Proof. unfold replace. destruct old; [congruence | reflexivity]. Qed.

Lemma skipn_length_old (a : ascii) (s : str) :
  skipn (length old) (a :: s) = skipn (length old - 1) s.
Proof.
  destruct old as [|o ot]; [congruence|]. simpl. rewrite Nat.sub_0_r. reflexivity.
Qed.

(** Every character of the result comes from the text or from [new]. *)
Lemma replace_from_in (c : ascii) (s : str) (skip : nat) :
  In c (replace_from skip s old new) -> In c s \/ In c new.
Proof.
  revert skip. induction s as [|a s IH]; intros skip; simpl; [tauto|].
  destruct skip as [|k].
  - destruct (match old with [] => true | y :: p' => Ascii.eqb a y && startswith s p' end).
    + intros H. apply in_app_or in H as [H|H]; [tauto|].
      apply IH in H. tauto.
    + intros [H|H]; [tauto|]. apply IH in H. tauto.
  - intros H. apply IH in H. tauto.
Qed.

(** A character outside [old], or also in [new], survives. *)
Lemma replace_from_keeps (c : ascii) (s : str) (skip : nat) :
  (In c old -> In c new) ->
  In c (skipn skip s) -> In c (replace_from skip s old new).
Proof.
  intros Hkeep. revert skip. induction s as [|a s IH]; intros skip Hin.
  - rewrite skipn_nil in Hin. contradiction.
  - destruct skip as [|k]; [|exact (IH k Hin)].
    cbn [replace_from]. destruct (startswith (a :: s) old) eqn:Hm.
    + apply in_or_app. change (In c (a :: s)) in Hin.
      rewrite (startswith_app _ _ Hm) in Hin.
      apply in_app_or in Hin as [Hin|Hin]; [left; auto|right].
      apply IH. rewrite skipn_length_old in Hin. exact Hin.
    + change (In c (a :: s)) in Hin.
      destruct Hin as [Hin|Hin]; [left; exact Hin|right].
      apply (IH 0). exact Hin.
Qed.

(** When [old] occurs, the whole of [new] is in the result. *)
Lemma replace_from_brings (s : str) (skip : nat) :
  str_in old (skipn skip s) = true -> incl new (replace_from skip s old new).
Proof.
  revert skip. induction s as [|a s IH]; intros skip Hocc.
  - rewrite skipn_nil in Hocc. cbn [str_in] in Hocc.
    rewrite (startswith_nil old old_not_empty) in Hocc. discriminate.
  - destruct skip as [|k]; [|exact (IH k Hocc)].
    cbn [replace_from]. destruct (startswith (a :: s) old) eqn:Hm.
    + apply incl_appl, incl_refl.
    + apply incl_tl. apply (IH 0).
      simpl skipn in Hocc. cbn [str_in] in Hocc. rewrite Hm in Hocc. exact Hocc.
Qed.

Lemma replace_in (c : ascii) (s : str) :
  In c (replace s old new) -> In c s \/ In c new.
Proof. rewrite replace_nonempty_old. apply replace_from_in. Qed.

Lemma replace_keeps (c : ascii) (s : str) :
  (In c old -> In c new) -> In c s -> In c (replace s old new).
Proof.
  intros Hkeep Hin. rewrite replace_nonempty_old.
  apply replace_from_keeps; assumption.
Qed.

Lemma replace_brings (s : str) :
  str_in old s = true -> incl new (replace s old new).
Proof.
  intros Hocc. rewrite replace_nonempty_old. apply replace_from_brings. exact Hocc.
Qed.

(** The first character of the result is the text's or [new]'s. *)
Lemma replace_head (a : ascii) (s : str) :
  new <> [] ->
  exists h t, replace (a :: s) old new = h :: t /\ (h = a \/ hd_error new = Some h).
Proof.
  intros Hnew. rewrite replace_nonempty_old. cbn [replace_from].
  destruct (startswith (a :: s) old).
  - destruct new as [|n0 nt]; [congruence|].
    exists n0, (nt ++ replace_from (length old - 1) s old (n0 :: nt)).
    split; [reflexivity | right; reflexivity].
  - exists a, (replace_from 0 s old new). split; [reflexivity | left; reflexivity].
Qed.

End Replace.

(** ** The dictionary pass *)

Lemma rules_ok : forallb rule_ok COMMON_CORRECTIONS = true.
Proof. vm_compute. reflexivity. Qed.

Lemma mem_In (c : ascii) (s : str) : mem c s = true <-> In c s.
Proof.
  unfold mem. rewrite existsb_exists. split.
  - intros (x & Hx & Hcx). apply Ascii.eqb_eq in Hcx. subst x. exact Hx.
  - intros Hc. exists c. split; [exact Hc | apply Ascii.eqb_refl].
Qed.

Lemma implb_mem (c d : ascii) (s t : str) :
  implb (mem c s) (mem d t) = true -> In c s -> In d t.
Proof.
  intros Himp Hc. apply mem_In in Hc. rewrite Hc in Himp. simpl in Himp.
  apply mem_In. exact Himp.
Qed.

Lemma head_not_space_cons (s : str) :
  head_not_space s = true -> exists h t, s = h :: t /\ is_space h = false.
Proof.
  destruct s as [|h t]; simpl; [discriminate|].
  intros H. apply negb_true_iff in H. exists h, t. split; [reflexivity | exact H].
Qed.

Lemma apply_corrections_no_key (rules : list (str * str)) (s : str) (sugg : list str) :
  existsb (fun rule => str_in (fst rule) s) rules = false ->
  apply_corrections rules (s, sugg) = (s, sugg).
Proof.
  unfold apply_corrections.
  induction rules as [|[wrong right'] rules IH]; simpl; [reflexivity|].
  intros H. apply orb_false_iff in H as [Hw Hrest].
  rewrite Hw. apply IH. exact Hrest.
Qed.

Lemma apply_corrections_invariant (P : str -> Prop) (rules : list (str * str)) :
  (forall wrong right' s,
      In (wrong, right') rules -> P s -> str_in wrong s = true ->
      P (replace s wrong right')) ->
  forall st, P (fst st) -> P (fst (apply_corrections rules st)).
Proof.
  unfold apply_corrections.
  induction rules as [|[wrong right'] rules IH]; intros Hstep st Hst; simpl;
    [exact Hst|].
  apply IH.
  - intros w r s Hin. apply Hstep. right. exact Hin.
  - destruct st as [improved sugg]. simpl in *.
    destruct (str_in wrong improved) eqn:Hocc; simpl; [|exact Hst].
    apply Hstep; [left; reflexivity | exact Hst | exact Hocc].
Qed.

Lemma passed_replace (wrong right' s : str) :
  rule_ok (wrong, right') = true ->
  passed s -> str_in wrong s = true -> passed (replace s wrong right').
Proof.
  unfold rule_ok. cbn [fst snd]. intros Hok (Hhead & Hchars & HE) Hocc.
  repeat (apply andb_true_iff in Hok as [Hok ?]).
  assert (Hwrong : wrong <> []) by (destruct wrong; [discriminate | congruence]).
  assert (Hright : right' <> []) by (destruct right'; [discriminate | congruence]).
  repeat split.
  - destruct (head_not_space_cons s Hhead) as (a & t & -> & Ha).
    destruct (replace_head wrong right' Hwrong a t Hright) as (h & t' & -> & [->|Hh]).
    + simpl. rewrite Ha. reflexivity.
    + destruct right' as [|n0 nt]; [congruence|].
      injection Hh as ->. assumption.
  - apply forallb_forall. intros x Hx.
    apply (replace_in wrong right' Hwrong) in Hx as [Hx|Hx].
    + exact (proj1 (forallb_forall _ _) Hchars x Hx).
    + match goal with
      | Hf : forallb pass_char right' = true |- _ =>
          exact (proj1 (forallb_forall _ _) Hf x Hx)
      end.
  - intros HinE.
    apply (replace_in wrong right' Hwrong) in HinE as [HinE|HinE].
    + apply (replace_keeps wrong right' Hwrong).
      * eapply implb_mem; eassumption.
      * apply HE. exact HinE.
    + apply (replace_brings wrong right' Hwrong s Hocc).
      eapply implb_mem; eassumption.
Qed.

Lemma passed_after_corrections (s : str) (sugg : list str) :
  passed s -> passed (fst (apply_corrections COMMON_CORRECTIONS (s, sugg))).
Proof.
  intros Hs. apply (apply_corrections_invariant passed); [|exact Hs].
  intros wrong right' t Hin. apply passed_replace.
  exact (proj1 (forallb_forall _ _) rules_ok _ Hin).
Qed.

Lemma passed_lowered (c : ascii) (t : str) :
  is_space c = false -> passed (lower (c :: t)).
Proof.
  intros Hc. repeat split.
  - simpl. rewrite is_space_lower_char, Hc. reflexivity.
  - apply forallb_forall. intros x Hx. unfold lower in Hx.
    apply in_map_iff in Hx as (y & <- & _).
    unfold pass_char. rewrite lower_char_not_upper. reflexivity.
  - intros HE. unfold lower in HE. apply in_map_iff in HE as (y & Hy & _).
    pose proof (lower_char_not_upper y) as Hn. rewrite Hy in Hn.
    vm_compute in Hn. discriminate.
Qed.

(** ** Capitalization, the period and the question mark *)

Lemma capitalize_first_cons (h : ascii) (t : str) :
  capitalize_first (h :: t) = upper_char h :: t.
Proof. reflexivity. Qed.

Lemma add_period_spec (h : ascii) (t : str) :
  exists t',
    add_period (h :: t) = h :: t' /\
    (forall c, In c t' -> In c t \/ c = "."%char) /\
    (forall c, In c t -> In c t') /\
    ends_terminal (h :: t') = true.
Proof.
  unfold add_period, ends_terminal. rewrite last_char_cons.
  rewrite str_in_terminal.
  destruct (is_terminal match last_char t with Some x => x | None => h end) eqn:Hterm;
    cbn [negb].
  - exists t. rewrite last_char_cons. auto.
  - exists (t ++ py "."). repeat split.
    + intros c Hc. apply in_app_or in Hc as [Hc|[Hc|[]]]; auto.
    + intros c Hc. apply in_or_app. auto.
    + change (h :: t ++ py ".") with ((h :: t) ++ ["."%char]).
      rewrite last_char_snoc. reflexivity.
Qed.

Lemma add_period_fix (s : str) : ends_terminal s = true -> add_period s = s.
Proof.
  unfold ends_terminal, add_period. destruct (last_char s) as [c|]; [|discriminate].
  rewrite str_in_terminal. intros ->. reflexivity.
Qed.

Lemma endswith_period (s : str) :
  endswith s (py ".") = true -> s = drop_last s ++ ["."%char].
Proof.
  unfold endswith, drop_last. cbn [py list_ascii_of_string rev app].
  destruct (rev s) as [|x r] eqn:Hrev; cbn [startswith]; [discriminate|].
  intros H. apply andb_true_iff in H as [Hx _]. apply Ascii.eqb_eq in Hx. subst x.
  assert (Hs : s = rev r ++ ["."%char]).
  { rewrite <- (rev_involutive s), Hrev. reflexivity. }
  rewrite Hs at 2. rewrite removelast_last. exact Hs.
Qed.

Lemma endswith_period_question (y : str) :
  endswith (y ++ ["?"%char]) (py ".") = false.
Proof.
  unfold endswith. rewrite rev_app_distr. reflexivity.
Qed.

Lemma question_mark_cases (s : str) :
  question_mark s = s \/
  exists yh yt, s = yh :: yt ++ ["."%char] /\ question_mark s = yh :: yt ++ ["?"%char].
Proof.
  unfold question_mark.
  destruct (existsb (fun q => startswith (lower s) q) QUESTION_LEADS) eqn:Hlead;
    [|left; reflexivity].
  destruct (endswith s (py ".")) eqn:Hend; [|left; reflexivity].
  apply endswith_period in Hend.
  destruct (drop_last s) as [|yh yt].
  - rewrite Hend in Hlead. vm_compute in Hlead. discriminate.
  - right. exists yh, yt. split; [exact Hend | reflexivity].
Qed.

Lemma question_mark_spec (h : ascii) (t : str) :
  ends_terminal (h :: t) = true ->
  exists t',
    question_mark (h :: t) = h :: t' /\
    (forall c, In c t' -> In c t \/ c = "?"%char) /\
    (forall c, In c t -> c <> "."%char -> In c t') /\
    ends_terminal (h :: t') = true.
Proof.
  intros Hterm.
  destruct (question_mark_cases (h :: t)) as [Hsame|(yh & yt & Hs & Hq)].
  - exists t. rewrite Hsame. auto.
  - injection Hs as <- ->. exists (yt ++ ["?"%char]). rewrite Hq. repeat split.
    + intros c Hc. apply in_app_or in Hc as [Hc|[Hc|[]]]; auto.
      left. apply in_or_app. auto.
    + intros c Hc Hdot. apply in_app_or in Hc as [Hc|[Hc|[]]].
      * apply in_or_app. auto.
      * congruence.
    + unfold ends_terminal.
      change (h :: yt ++ ["?"%char]) with ((h :: yt) ++ ["?"%char]).
      rewrite last_char_snoc. reflexivity.
Qed.

Lemma question_mark_idempotent (s : str) :
  question_mark (question_mark s) = question_mark s.
Proof.
  destruct (question_mark_cases s) as [Hsame|(yh & yt & _ & Hq)].
  - rewrite Hsame. exact Hsame.
  - rewrite Hq. unfold question_mark.
    change (yh :: yt ++ ["?"%char]) with ((yh :: yt) ++ ["?"%char]).
    rewrite endswith_period_question.
    destruct (existsb _ QUESTION_LEADS); reflexivity.
Qed.

Lemma question_mark_no_lead (s : str) :
  has_question_lead s = false -> question_mark s = s.
Proof.
  unfold has_question_lead, question_mark. intros ->. reflexivity.
Qed.

(** ** The whole of [basic_improve] *)

Lemma fst_basic_improve (text : str) :
  fst (basic_improve text)
  = question_mark
      (add_period
         (capitalize_first
            (fst (apply_corrections COMMON_CORRECTIONS (lower (strip text), []))))).
Proof.
  unfold basic_improve.
  destruct (apply_corrections COMMON_CORRECTIONS (lower (strip text), [])).
  reflexivity.
Qed.

(** A text the four steps leave alone comes back with the encouragement. *)
Lemma basic_improve_unchanged (text : str) :
  has_correction_key (lower (strip text)) = false ->
  capitalize_first (lower (strip text)) = strip text ->
  ends_terminal (strip text) = true ->
  question_mark (strip text) = strip text ->
  basic_improve text = (strip text, [GREAT_JOB]).
Proof.
  intros Hkey Hcap Hterm Hq. unfold basic_improve.
  rewrite (apply_corrections_no_key _ _ _ Hkey).
  rewrite Hcap, (add_period_fix _ Hterm), Hq, str_eqb_refl. reflexivity.
Qed.

Lemma lower_fix (t : str) :
  forallb (fun c => negb (is_upper c)) t = true -> lower t = t.
Proof.
  induction t as [|c t IH]; simpl; [reflexivity|].
  intros H. apply andb_true_iff in H as [Hc Ht]. apply negb_true_iff in Hc.
  rewrite (lower_char_fix c Hc), (IH Ht). reflexivity.
Qed.

(** C10: for an input that is not blank, the improved string is not empty
    and ends in '.', '?' or '!'. *)
Theorem basic_improve_ends_terminal (text : str) :
  strip text <> [] ->
  fst (basic_improve text) <> [] /\
  exists c, last_char (fst (basic_improve text)) = Some c /\
            (c = "."%char \/ c = "?"%char \/ c = "!"%char).
Proof.
  intros Hne. rewrite fst_basic_improve.
  destruct (strip text) as [|c0 t0] eqn:Hstrip; [congruence|].
  pose proof (strip_head _ _ _ Hstrip) as Hc0.
  pose proof (passed_after_corrections _ [] (passed_lowered c0 t0 Hc0)) as (Hhead & _).
  destruct (head_not_space_cons _ Hhead) as (d0 & dt & -> & _).
  rewrite capitalize_first_cons.
  destruct (add_period_spec (upper_char d0) dt) as (pt & -> & _ & _ & Hterm).
  destruct (question_mark_spec _ _ Hterm) as (qt & -> & _ & _ & Hterm').
  split; [discriminate|].
  unfold ends_terminal in Hterm'.
  destruct (last_char (upper_char d0 :: qt)) as [c|]; [|discriminate].
  exists c. split; [reflexivity | apply is_terminal_cases; exact Hterm'].
Qed.

Lemma basic_improve_ends_terminal_witness :
  strip (py "  are you ok ") <> [] /\
  fst (basic_improve (py "  are you ok ")) <> [] /\
  exists c, last_char (fst (basic_improve (py "  are you ok "))) = Some c /\
            (c = "."%char \/ c = "?"%char \/ c = "!"%char).
Proof.
  assert (Hne : strip (py "  are you ok ") <> []) by (vm_compute; discriminate).
  split; [exact Hne|].
  exact (basic_improve_ends_terminal (py "  are you ok ") Hne).
Defined.

(** ** Sentences that need no change *)

(** C7, as the specification states it, fails: "Hello Bob." has no
    dictionary key and no lead word, ends in a period and starts with a
    capital, yet lower-casing turns it into "Hello bob.", which differs from
    the original, so no encouragement is given. *)
Lemma hello_bob_gets_no_encouragement :
  needs_no_change (py "Hello Bob.") /\
  basic_improve (py "Hello Bob.") = (py "Hello bob.", []) /\
  snd (basic_improve (py "Hello Bob.")) <> [GREAT_JOB].
Proof.
  split; [|split].
  - unfold needs_no_change. repeat split; vm_compute; try reflexivity; discriminate.
  - vm_compute. reflexivity.
  - vm_compute. discriminate.
Qed.

(** C7, amended: for every input that is not blank, whose lower-cased
    trimmed form contains no dictionary key, that starts with no lead word,
    ends in terminal punctuation, starts with an upper-case letter and has
    no other upper-case letter, the suggestions are exactly the
    encouragement. *)
Theorem basic_improve_good_sentence (text : str) :
  needs_no_change text ->
  rest_not_upper (strip text) = true ->
  snd (basic_improve text) = [GREAT_JOB].
Proof.
  intros (Hne & Hkey & Hlead & Hterm & Hup) Hrest.
  rewrite basic_improve_unchanged; try assumption; [reflexivity| |].
  - destruct (strip text) as [|c t]; [discriminate|].
    unfold starts_upper in Hup. unfold rest_not_upper in Hrest. cbn [tl] in Hrest.
    cbn [lower map]. rewrite capitalize_first_cons.
    rewrite (upper_lower_of_upper c Hup).
    fold (lower t). rewrite (lower_fix t Hrest). reflexivity.
  - apply question_mark_no_lead. exact Hlead.
Qed.

Lemma basic_improve_good_sentence_witness :
  needs_no_change (py " Let me go!  ") /\
  rest_not_upper (strip (py " Let me go!  ")) = true /\
  snd (basic_improve (py " Let me go!  ")) = [GREAT_JOB].
Proof.
  assert (Hfine : needs_no_change (py " Let me go!  ")).
  { unfold needs_no_change. repeat split; vm_compute; try reflexivity; discriminate. }
  split; [exact Hfine|]. split; [reflexivity|].
  apply (basic_improve_good_sentence (py " Let me go!  ") Hfine). reflexivity.
Defined.

(** ** A second pass *)

Lemma has_key_of_occurrence (wrong right' s : str) :
  In (wrong, right') COMMON_CORRECTIONS ->
  str_in wrong s = true -> has_correction_key s = true.
Proof.
  intros Hin Hocc. unfold has_correction_key. apply existsb_exists.
  exists (wrong, right'). split; assumption.
Qed.

Lemma no_key_no_i (s : str) :
  has_correction_key s = false -> ~ In "i"%char s.
Proof.
  intros Hkey Hin. apply str_in_single in Hin.
  rewrite (has_key_of_occurrence (py "i") (py "I") s) in Hkey;
    [discriminate | simpl; tauto | exact Hin].
Qed.

Lemma no_key_no_r (s : str) :
  has_correction_key s = false -> ~ In "r"%char s.
Proof.
  intros Hkey Hin. apply str_in_single in Hin.
  rewrite (has_key_of_occurrence (py "r") (py "are") s) in Hkey;
    [discriminate | simpl; tauto | exact Hin].
Qed.

(** C2, as the specification states it, fails: the second pass over the
    result for "what is your name" suggests corrections again and rewrites
    the middle of the string. *)
Lemma what_is_your_name_does_not_converge :
  basic_improve (fst (basic_improve (py "what is your name")))
  = (py "What Is yoyoyoyouaaree name?",
     [ py "Consider using 'I' instead of 'i'.";
       py "Consider using 'you' instead of 'u'.";
       py "Consider using 'are' instead of 'r'." ])
  /\ ~ converges_in_two_passes (py "what is your name").
Proof.
  split; [vm_compute; reflexivity|].
  unfold converges_in_two_passes. intros [Hsugg _].
  vm_compute in Hsugg. discriminate.
Qed.

(** The improved string of a text that is not blank: a first character
    that upper-casing and trimming leave alone, then characters the
    dictionary pass allows, with an "r" in the lower-cased string whenever
    an "E" follows the first character. *)
Lemma improved_shape (text : str) :
  strip text <> [] ->
  exists h t,
    fst (basic_improve text) = h :: t /\
    is_space h = false /\
    upper_char (lower_char h) = h /\
    (forall c, In c t -> pass_char c = true) /\
    (In "E"%char t -> In "r"%char (lower (h :: t))) /\
    ends_terminal (h :: t) = true /\
    question_mark (h :: t) = h :: t.
Proof.
  intros Hne. rewrite fst_basic_improve.
  destruct (strip text) as [|c0 t0] eqn:Hstrip; [congruence|].
  pose proof (strip_head _ _ _ Hstrip) as Hc0.
  pose proof (passed_after_corrections _ [] (passed_lowered c0 t0 Hc0))
    as (Hhead & Hchars & HE).
  destruct (head_not_space_cons _ Hhead) as (d0 & dt & Hd & Hd0).
  rewrite Hd in *. clear Hd. rewrite capitalize_first_cons.
  destruct (add_period_spec (upper_char d0) dt) as (pt & Hp & Hp_in & Hp_keep & Hterm).
  rewrite Hp.
  destruct (question_mark_spec _ _ Hterm) as (qt & Hq & Hq_in & Hq_keep & Hterm').
  exists (upper_char d0), qt. rewrite Hq. repeat split.
  - rewrite is_space_upper_char. exact Hd0.
  - apply upper_lower_upper.
  - intros c Hc. apply Hq_in in Hc as [Hc| ->]; [|reflexivity].
    apply Hp_in in Hc as [Hc| ->]; [|reflexivity].
    apply (proj1 (forallb_forall _ _) Hchars). right. exact Hc.
  - intros HinE.
    assert (HEd : In "E"%char (d0 :: dt)).
    { right. apply Hq_in in HinE as [HinE|HinE]; [|discriminate].
      apply Hp_in in HinE as [HinE|HinE]; [exact HinE | discriminate]. }
    apply HE in HEd. destruct HEd as [Hr|Hr].
    + left. subst d0. reflexivity.
    + right. unfold lower. apply in_map_iff. exists "r"%char.
      split; [reflexivity|]. apply Hq_keep; [|discriminate].
      apply Hp_keep. exact Hr.
  - exact Hterm'.
  - rewrite <- Hq. apply question_mark_idempotent.
Qed.

(** C2, amended: when the improved string, lower-cased, contains no
    dictionary key, a second pass returns it unchanged, with the
    encouragement as its only suggestion. *)
Theorem basic_improve_second_pass (text : str) :
  has_correction_key (lower (fst (basic_improve text))) = false ->
  basic_improve (fst (basic_improve text))
  = (fst (basic_improve text), [GREAT_JOB]).
Proof.
  intros Hkey.
  destruct (strip text) as [|c0 t0] eqn:Hstrip.
  { assert (Hblank : basic_improve text = ([], [GREAT_JOB])).
    { unfold basic_improve. rewrite Hstrip. vm_compute. reflexivity. }
    rewrite Hblank. vm_compute. reflexivity. }
  destruct (improved_shape text) as (h & t & Hfst & Hh & Hcase & Hchars & HE & Hterm & Hq).
  { rewrite Hstrip. discriminate. }
  rewrite Hfst in *.
  assert (Hstrip1 : strip (h :: t) = h :: t).
  { apply strip_fix; [exact Hh|]. intros x Hx. apply is_terminal_not_space.
    unfold ends_terminal in Hterm. rewrite Hx in Hterm. exact Hterm. }
  assert (Hlow : lower t = t).
  { apply lower_fix. apply forallb_forall. intros c Hc.
    pose proof (Hchars c Hc) as Hpass. unfold pass_char in Hpass.
    destruct (is_upper c) eqn:Hup; [exfalso|reflexivity].
    cbn [negb orb] in Hpass. apply orb_true_iff in Hpass as [Hpass|Hpass];
      apply Ascii.eqb_eq in Hpass; subst c.
    - apply (no_key_no_i _ Hkey). right. unfold lower. apply in_map_iff.
      exists "I"%char. split; [reflexivity | exact Hc].
    - apply (no_key_no_r _ Hkey). apply HE. exact Hc. }
  pose proof (basic_improve_unchanged (h :: t)) as Hfix.
  rewrite Hstrip1 in Hfix. apply Hfix.
  - exact Hkey.
  - cbn [lower map]. rewrite capitalize_first_cons, Hcase.
    fold (lower t). rewrite Hlow. reflexivity.
  - exact Hterm.
  - exact Hq.
Qed.

Lemma basic_improve_second_pass_witness :
  has_correction_key (lower (fst (basic_improve (py "when he dont know")))) = false /\
  basic_improve (fst (basic_improve (py "when he dont know")))
  = (py "When he don't know?", [GREAT_JOB]).
Proof.
  split; [reflexivity|].
  exact (basic_improve_second_pass (py "when he dont know") eq_refl).
Defined.

(** ** Further properties of [basic_improve] *)

Lemma rstrip_last (s : str) (c : ascii) :
  last_char (rstrip s) = Some c -> is_space c = false.
Proof.
  induction s as [|a s IH]; [discriminate|].
  cbn [rstrip]. destruct (rstrip s) as [|x r].
  - destruct (is_space a) eqn:Ha; [discriminate|].
    intros H. injection H as <-. exact Ha.
  - rewrite last_char_cons_cons. exact IH.
Qed.

Lemma strip_idempotent (s : str) : strip (strip s) = strip s.
Proof.
  destruct (strip s) as [|c t] eqn:Hs; [reflexivity|].
  apply strip_fix.
  - exact (strip_head _ _ _ Hs).
  - intros x Hx. apply (rstrip_last (lstrip s)).
    fold (strip s). rewrite Hs. exact Hx.
Qed.

Lemma lstrip_lower (s : str) : lstrip (lower s) = lower (lstrip s).
Proof.
  induction s as [|c s IH]; [reflexivity|].
  cbn [lower map lstrip]. rewrite is_space_lower_char.
  destruct (is_space c); [exact IH | reflexivity].
Qed.

Lemma rstrip_lower (s : str) : rstrip (lower s) = lower (rstrip s).
Proof.
  induction s as [|c s IH]; [reflexivity|].
  cbn [lower map rstrip]. fold (lower s). rewrite IH.
  destruct (rstrip s) as [|x r]; cbn [lower map].
  - rewrite is_space_lower_char. destruct (is_space c); reflexivity.
  - reflexivity.
Qed.

Lemma strip_lower (s : str) : strip (lower s) = lower (strip s).
Proof. unfold strip. rewrite lstrip_lower, rstrip_lower. reflexivity. Qed.

Lemma lower_idempotent (s : str) : lower (lower s) = lower s.
Proof.
  apply lower_fix. apply forallb_forall. intros c Hc.
  unfold lower in Hc. apply in_map_iff in Hc as (y & <- & _).
  rewrite lower_char_not_upper. reflexivity.
Qed.

Lemma lowered_strip_of_lower (a b : str) :
  lower a = lower b -> lower (strip a) = lower (strip b).
Proof.
  intros H. rewrite <- !strip_lower. rewrite H. reflexivity.
Qed.

Lemma improved_of_lower (a b : str) :
  lower a = lower b -> fst (basic_improve a) = fst (basic_improve b).
Proof.
  intros H. rewrite !fst_basic_improve, (lowered_strip_of_lower a b H). reflexivity.
Qed.

Lemma improved_of_blank (text : str) :
  strip text = [] -> basic_improve text = ([], [GREAT_JOB]).
Proof.
  intros Hblank. unfold basic_improve. rewrite Hblank. vm_compute. reflexivity.
Qed.

(** X1: surrounding whitespace does not matter to [basic_improve]. *)
Theorem basic_improve_ignores_outer_space (text : str) :
  basic_improve (strip text) = basic_improve text.
Proof.
  unfold basic_improve. rewrite strip_idempotent. reflexivity.
Qed.

(** X2: two inputs that differ only in letter case get the same improved
    string. *)
Theorem basic_improve_ignores_case (a b : str) :
  lower a = lower b ->
  fst (basic_improve a) = fst (basic_improve b).
Proof. apply improved_of_lower. Qed.

Lemma basic_improve_ignores_case_witness :
  lower (py "I DONT know") = lower (py "i dont KNOW") /\
  fst (basic_improve (py "I DONT know")) = fst (basic_improve (py "i dont KNOW")).
Proof.
  split; [reflexivity|].
  apply (basic_improve_ignores_case (py "I DONT know") (py "i dont KNOW")).
  reflexivity.
Defined.

(** *** The suggestions *)

Lemma subseq_nil_l {A : Type} (l : list A) : subseq [] l.
Proof. induction l; constructor; assumption. Qed.

Lemma subseq_refl {A : Type} (l : list A) : subseq l l.
Proof. induction l; constructor; assumption. Qed.

Lemma subseq_app {A : Type} (a b c d : list A) :
  subseq a b -> subseq c d -> subseq (a ++ c) (b ++ d).
Proof.
  intros Hab Hcd. induction Hab; simpl; [exact Hcd | |]; constructor; assumption.
Qed.

Lemma subseq_length {A : Type} (a b : list A) : subseq a b -> length a <= length b.
Proof. induction 1; simpl; lia. Qed.

Lemma subseq_in {A : Type} (a b : list A) (x : A) : subseq a b -> In x a -> In x b.
Proof.
  induction 1; simpl; [tauto | tauto |]. intros [Hx|Hx]; auto.
Qed.

Lemma subseq_nodup {A : Type} (a b : list A) : subseq a b -> NoDup b -> NoDup a.
Proof.
  induction 1 as [|x l1 l2 Hs IH|x l1 l2 Hs IH]; intros Hb.
  - constructor.
  - apply IH. inversion Hb. assumption.
  - inversion Hb as [|y l Hnot Hl]; subst. constructor.
    + intros Hx. apply Hnot. eapply subseq_in; eassumption.
    + apply IH. exact Hl.
Qed.

(** The dictionary pass appends, in the rules' order, the suggestions of
    the rules that apply. *)
Lemma apply_corrections_suggestions (rules : list (str * str)) (s : str) (sugg : list str) :
  exists extra,
    snd (apply_corrections rules (s, sugg)) = sugg ++ extra /\
    subseq extra (map rule_suggestion rules).
Proof.
  unfold apply_corrections. revert s sugg.
  induction rules as [|[wrong right'] rules IH]; intros s sugg.
  - exists []. split; [symmetry; apply app_nil_r | constructor].
  - cbn [fold_left apply_correction map].
    destruct (str_in wrong s).
    + destruct (IH (replace s wrong right') (sugg ++ [consider right' wrong]))
        as (extra & Heq & Hsub).
      exists (consider right' wrong :: extra). split.
      * rewrite Heq, <- app_assoc. reflexivity.
      * apply subseq_take. exact Hsub.
    + destruct (IH s sugg) as (extra & Heq & Hsub).
      exists extra. split; [exact Heq | apply subseq_skip; exact Hsub].
Qed.

Lemma apply_corrections_fires (rules : list (str * str)) (s : str) (sugg : list str) :
  existsb (fun rule => str_in (fst rule) s) rules = true ->
  length sugg < length (snd (apply_corrections rules (s, sugg))).
Proof.
  revert s sugg. induction rules as [|[wrong right'] rules IH]; intros s sugg;
    [discriminate|].
  cbn [existsb fst]. unfold apply_corrections. cbn [fold_left apply_correction].
  destruct (str_in wrong s); cbn [orb].
  - intros _.
    destruct (apply_corrections_suggestions rules (replace s wrong right')
                (sugg ++ [consider right' wrong])) as (extra & Heq & _).
    unfold apply_corrections in Heq. rewrite Heq, !length_app. simpl. lia.
  - apply IH.
Qed.

(** The suggestions of [basic_improve]: those of the dictionary pass, then
    the encouragement when the improved string is the trimmed input. *)
Lemma snd_basic_improve (text : str) :
  snd (basic_improve text)
  = snd (apply_corrections COMMON_CORRECTIONS (lower (strip text), []))
    ++ (if str_eqb (fst (basic_improve text)) (strip text) then [GREAT_JOB] else []).
Proof.
  unfold basic_improve.
  destruct (apply_corrections COMMON_CORRECTIONS (lower (strip text), [])) as [d sg].
  cbn [fst snd]. destruct (str_eqb _ (strip text)); [reflexivity|].
  symmetry. apply app_nil_r.
Qed.

Lemma corrections_subseq (s : str) :
  subseq (snd (apply_corrections COMMON_CORRECTIONS (s, [])))
         (map rule_suggestion COMMON_CORRECTIONS).
Proof.
  destruct (apply_corrections_suggestions COMMON_CORRECTIONS s []) as (extra & -> & Hsub).
  exact Hsub.
Qed.

Lemma all_suggestions_nodup : NoDup ALL_SUGGESTIONS.
Proof.
  vm_compute. repeat constructor; simpl; intuition discriminate.
Qed.

Lemma great_job_not_a_correction :
  ~ In GREAT_JOB (map rule_suggestion COMMON_CORRECTIONS).
Proof.
  vm_compute. intuition discriminate.
Qed.

Lemma suggestions_subseq (text : str) :
  subseq (snd (basic_improve text)) ALL_SUGGESTIONS.
Proof.
  rewrite snd_basic_improve. unfold ALL_SUGGESTIONS.
  apply subseq_app; [apply corrections_subseq|].
  destruct (str_eqb _ _); [apply subseq_refl | apply subseq_nil_l].
Qed.

(** X3: the suggestions are some of the sixteen rule suggestions followed
    by the encouragement, each at most once and in the dictionary's order. *)
Theorem basic_improve_suggestions_in_order (text : str) :
  subseq (snd (basic_improve text)) ALL_SUGGESTIONS.
Proof. apply suggestions_subseq. Qed.

(** *** Rules that cannot apply

    The rule for "i" leaves no "i" in the text, and no later replacement
    brings one back before a rule whose key has an "i" is tried. *)

Lemma str_in_incl (w s : str) : str_in w s = true -> incl w s.
Proof.
  induction s as [|a s IH]; cbn [str_in].
  - rewrite orb_false_r. destruct w; [intros _ x [] | discriminate].
  - intros H. apply orb_true_iff in H as [H|H].
    + apply startswith_app in H. rewrite H. apply incl_appl, incl_refl.
    + apply incl_tl, IH, H.
Qed.

Lemma replace_char_removes (c : ascii) (new s : str) :
  ~ In c new -> ~ In c (replace s [c] new).
Proof.
  intros Hnew. unfold replace.
  induction s as [|a s IH]; cbn [replace_from]; [tauto|].
  destruct (startswith (a :: s) [c]) eqn:Hm; cbn [length Nat.sub].
  - intros Hin. apply in_app_or in Hin as [Hin|Hin]; tauto.
  - intros [Hin|Hin]; [|tauto]. subst a.
    cbn [startswith] in Hm. rewrite Ascii.eqb_refl in Hm.
    destruct s; discriminate.
Qed.

Lemma no_i_after_first_two (s : str) (sugg : list str) :
  ~ In "i"%char (fst (apply_corrections (firstn 2 COMMON_CORRECTIONS) (s, sugg))).
Proof.
  unfold apply_corrections. cbn [firstn COMMON_CORRECTIONS fold_left].
  destruct (apply_correction (s, sugg) (py "i am", py "I am")) as [s1 g1].
  cbn [apply_correction]. destruct (str_in (py "i") s1) eqn:Hocc; cbn [fst].
  - apply (replace_char_removes "i"%char). vm_compute. intuition discriminate.
  - intros Hin. apply str_in_single in Hin.
    change (py "i") with ["i"%char] in Hocc. congruence.
Qed.

Lemma rules_after_i :
  forallb (fun rule => truthy (fst rule)
                       && (mem "i"%char (fst rule) || negb (mem "i"%char (snd rule))))
          (skipn 2 COMMON_CORRECTIONS) = true.
Proof. vm_compute. reflexivity. Qed.

Lemma pass_without_i (rules : list (str * str)) (s : str) (sugg : list str) :
  forallb (fun rule => truthy (fst rule)
                       && (mem "i"%char (fst rule) || negb (mem "i"%char (snd rule))))
          rules = true ->
  ~ In "i"%char s ->
  exists extra,
    snd (apply_corrections rules (s, sugg)) = sugg ++ extra /\
    subseq extra
      (map rule_suggestion (filter (fun rule => negb (mem "i"%char (fst rule))) rules)).
Proof.
  unfold apply_corrections. revert s sugg.
  induction rules as [|[wrong right'] rules IH]; intros s sugg Hrules Hs.
  - exists []. split; [symmetry; apply app_nil_r | constructor].
  - cbn [forallb fst snd] in Hrules.
    apply andb_true_iff in Hrules as [Hrule Hrules].
    apply andb_true_iff in Hrule as [Hwrong Hi].
    assert (Hne : wrong <> []) by (destruct wrong; [discriminate | congruence]).
    cbn [fold_left apply_correction filter fst].
    destruct (mem "i"%char wrong) eqn:Hkey; cbn [negb].
    + assert (Hocc : str_in wrong s = false).
      { destruct (str_in wrong s) eqn:Hocc; [exfalso|reflexivity].
        apply Hs. apply (str_in_incl _ _ Hocc). apply mem_In. exact Hkey. }
      rewrite Hocc. apply IH; assumption.
    + cbn [orb] in Hi. apply negb_true_iff in Hi.
      assert (Hright : ~ In "i"%char right').
      { intros Hin. apply mem_In in Hin. congruence. }
      cbn [map]. destruct (str_in wrong s).
      * destruct (IH (replace s wrong right') (sugg ++ [consider right' wrong]) Hrules)
          as (extra & Heq & Hsub).
        { intros Hin. apply (replace_in wrong right' Hne) in Hin. tauto. }
        exists (consider right' wrong :: extra). split.
        -- rewrite Heq, <- app_assoc. reflexivity.
        -- apply subseq_take. exact Hsub.
      * destruct (IH s sugg Hrules Hs) as (extra & Heq & Hsub).
        exists extra. split; [exact Heq | apply subseq_skip; exact Hsub].
Qed.

Lemma apply_corrections_app (l1 l2 : list (str * str)) (st : str * list str) :
  apply_corrections (l1 ++ l2) st = apply_corrections l2 (apply_corrections l1 st).
Proof. unfold apply_corrections. apply fold_left_app. Qed.

Lemma corrections_reachable (s : str) :
  subseq (snd (apply_corrections COMMON_CORRECTIONS (s, [])))
         (map rule_suggestion REACHABLE_CORRECTIONS).
Proof.
  rewrite <- (firstn_skipn 2 COMMON_CORRECTIONS) at 1.
  rewrite apply_corrections_app.
  pose proof (no_i_after_first_two s []) as Hno.
  destruct (apply_corrections_suggestions (firstn 2 COMMON_CORRECTIONS) s [])
    as (e2 & He2 & Hsub2).
  destruct (apply_corrections (firstn 2 COMMON_CORRECTIONS) (s, [])) as [s2 g2].
  cbn [fst snd app] in *. subst g2.
  destruct (pass_without_i _ s2 e2 rules_after_i Hno) as (e' & -> & Hsub').
  unfold REACHABLE_CORRECTIONS. rewrite map_app.
  apply subseq_app; assumption.
Qed.

Lemma suggestions_reachable (text : str) :
  subseq (snd (basic_improve text)) REACHABLE_SUGGESTIONS.
Proof.
  rewrite snd_basic_improve. unfold REACHABLE_SUGGESTIONS.
  apply subseq_app; [apply corrections_reachable|].
  destruct (str_eqb _ _); [apply subseq_refl | apply subseq_nil_l].
Qed.

(** X4: there are never more than thirteen suggestions, and none comes
    twice. *)
Theorem basic_improve_suggestions_bounded (text : str) :
  length (snd (basic_improve text)) <= 13 /\ NoDup (snd (basic_improve text)).
Proof.
  split.
  - exact (subseq_length _ _ (suggestions_reachable text)).
  - exact (subseq_nodup _ _ (suggestions_subseq text) all_suggestions_nodup).
Qed.

(** X18: the rules for "im", "there english", "they is" and "i has" never
    apply, since the rule for "i" has run before them: their suggestions
    are never made. *)
Theorem basic_improve_unreachable_rules (text : str) :
  ~ In (py "Consider using 'I'm' instead of 'im'.") (snd (basic_improve text)) /\
  ~ In (py "Consider using 'their English' instead of 'there english'.")
       (snd (basic_improve text)) /\
  ~ In (py "Consider using 'they are' instead of 'they is'.")
       (snd (basic_improve text)) /\
  ~ In (py "Consider using 'I have' instead of 'i has'.") (snd (basic_improve text)).
Proof.
  pose proof (suggestions_reachable text) as Hsub.
  repeat split; intros Hin; apply (subseq_in _ _ _ Hsub) in Hin;
    vm_compute in Hin; intuition discriminate.
Qed.

(** X5: the encouragement is among the suggestions exactly when the
    improved string equals the trimmed input. *)
Theorem basic_improve_encourages_iff_unchanged (text : str) :
  In GREAT_JOB (snd (basic_improve text)) <-> fst (basic_improve text) = strip text.
Proof.
  rewrite snd_basic_improve. split.
  - intros Hin. apply in_app_or in Hin as [Hin|Hin].
    + exfalso. apply great_job_not_a_correction.
      exact (subseq_in _ _ _ (corrections_subseq _) Hin).
    + destruct (str_eqb _ _) eqn:Heq; [|destruct Hin].
      apply str_eqb_eq. exact Heq.
  - intros Heq. apply in_or_app. right.
    apply str_eqb_eq in Heq. rewrite Heq. left. reflexivity.
Qed.

(** X6: a correction is suggested exactly when the lower-cased trimmed
    input contains a key of the dictionary. *)
Theorem basic_improve_corrects_iff_key (text : str) :
  has_correction_key (lower (strip text)) = true <->
  exists sugg, In sugg (snd (basic_improve text)) /\ sugg <> GREAT_JOB.
Proof.
  rewrite snd_basic_improve. split.
  - intros Hkey.
    pose proof (apply_corrections_fires COMMON_CORRECTIONS _ [] Hkey) as Hlen.
    destruct (snd (apply_corrections COMMON_CORRECTIONS (lower (strip text), [])))
      as [|sg rest] eqn:Hcorr; [simpl in Hlen; lia|].
    exists sg. split; [left; reflexivity|].
    intros ->. apply great_job_not_a_correction.
    apply (subseq_in _ _ _ (corrections_subseq (lower (strip text)))).
    rewrite Hcorr. left. reflexivity.
  - intros (sg & Hin & Hne).
    destruct (has_correction_key (lower (strip text))) eqn:Hkey; [reflexivity|].
    exfalso. unfold has_correction_key in Hkey.
    rewrite (apply_corrections_no_key _ _ _ Hkey) in Hin. cbn [snd app] in Hin.
    destruct (str_eqb _ _); [|destruct Hin].
    destruct Hin as [Hin|[]]. congruence.
Qed.

(** *** The improved string *)

Lemma not_lower_of_capital (c : ascii) :
  upper_char (lower_char c) = c -> is_lower c = false.
Proof. each_char c. Qed.

(** X7: for an ASCII input, the improved string has no whitespace at either
    end and does not start with a lower-case letter. *)
Theorem basic_improve_trimmed_and_capitalized (text : str) :
  strip (fst (basic_improve text)) = fst (basic_improve text) /\
  starts_lower (fst (basic_improve text)) = false.
Proof.
  destruct (strip text) as [|c0 t0] eqn:Hstrip.
  { rewrite (improved_of_blank text Hstrip). split; reflexivity. }
  destruct (improved_shape text) as (h & t & -> & Hh & Hcase & _ & _ & Hterm & _).
  { rewrite Hstrip. discriminate. }
  split.
  - apply strip_fix; [exact Hh|]. intros x Hx. apply is_terminal_not_space.
    unfold ends_terminal in Hterm. rewrite Hx in Hterm. exact Hterm.
  - apply not_lower_of_capital. exact Hcase.
Qed.

Lemma question_mark_leaves_no_period (p : str) :
  has_question_lead (question_mark p) && endswith (question_mark p) (py ".") = false.
Proof.
  destruct (question_mark_cases p) as [Hsame|(yh & yt & _ & ->)].
  - rewrite Hsame.
    destruct (has_question_lead p) eqn:Hlead; [|reflexivity].
    destruct (endswith p (py ".")) eqn:Hend; [exfalso|reflexivity].
    unfold question_mark in Hsame. unfold has_question_lead in Hlead.
    rewrite Hlead, Hend in Hsame.
    apply endswith_period in Hend. rewrite Hend in Hsame at 2.
    apply app_inv_head in Hsame. discriminate.
  - change (yh :: yt ++ ["?"%char]) with ((yh :: yt) ++ ["?"%char]).
    rewrite endswith_period_question. apply andb_false_r.
Qed.

(** X8: an improved string that starts with an interrogative lead word
    does not end in a period. *)
Theorem basic_improve_question_has_no_period (text : str) :
  has_question_lead (fst (basic_improve text))
  && endswith (fst (basic_improve text)) (py ".") = false.
Proof.
  rewrite fst_basic_improve. apply question_mark_leaves_no_period.
Qed.

(** ** Further properties of the tutor endpoint *)

(** The answer to a message that is not blank, in terms of what
    [basic_improve] returns for the trimmed message. *)
Lemma tutor_answer (rnd : nat) (req : TutorRequest) :
  strip (message req) <> [] ->
  tutor rnd req
  = ([strip (message req)],
     mkTutorResponse
       (let improved := fst (basic_improve (strip (message req))) in
        if level_eqb (level req) (py "beginner")
        then template_A (strip (message req)) improved
        else if level_eqb (level req) (py "advanced")
             then template_B improved
             else template_C improved)
       (match snd (basic_improve (strip (message req))) with
        | [] => [FALLBACK]
        | tips => tips
        end)
       (Some (random_choice rnd END_PROMPTS))).
Proof.
  intros Hne. unfold tutor.
  destruct (truthy (strip (message req))) eqn:Ht.
  2:{ apply truthy_false in Ht. contradiction. }
  cbn [negb]. unfold bind, call_basic_improve, ret.
  destruct (basic_improve (strip (message req))) as [improved tips].
  cbn [fst snd app]. unfold template_A, template_B, template_C, FALLBACK.
  destruct tips;
    (destruct (level_eqb (level req) (py "beginner"));
     [|destruct (level_eqb (level req) (py "advanced"))]);
    repeat rewrite <- app_assoc; reflexivity.
Qed.

Lemma tutor_blank (rnd : nat) (req : TutorRequest) :
  strip (message req) = [] -> tutor rnd req = ([], EMPTY_REPLY).
Proof.
  intros Hblank. unfold tutor. rewrite Hblank. reflexivity.
Qed.

Lemma random_choice_in (rnd : nat) : In (random_choice rnd END_PROMPTS) END_PROMPTS.
Proof.
  unfold random_choice. apply nth_In.
  apply Nat.mod_upper_bound. vm_compute. discriminate.
Qed.

Lemma startswith_self_app (x b : str) : startswith (x ++ b) x = true.
Proof.
  induction x as [|c x IH]; [destruct b; reflexivity|].
  simpl. rewrite Ascii.eqb_refl. exact IH.
Qed.

Lemma str_in_middle (a x b : str) : str_in x (a ++ x ++ b) = true.
Proof.
  induction a as [|c a IH].
  - cbn [app]. destruct (x ++ b) eqn:Hxb; cbn [str_in]; rewrite <- Hxb;
      rewrite startswith_self_app; reflexivity.
  - cbn [app str_in]. rewrite IH. apply orb_true_r.
Qed.

Lemma lower_nil (s : str) : lower s = [] -> s = [].
Proof. destruct s; [reflexivity | discriminate]. Qed.

(** X9: for a message that is not blank the handler calls [basic_improve]
    exactly once, on the trimmed message. *)
Theorem tutor_calls_improve_once (rnd : nat) (req : TutorRequest) :
  strip (message req) <> [] ->
  calls (tutor rnd req) = [strip (message req)].
Proof.
  intros Hne. rewrite (tutor_answer rnd req Hne). reflexivity.
Qed.

Lemma tutor_calls_improve_once_witness :
  strip (message (mkTutorRequest (py " i dont know ") None)) <> [] /\
  calls (tutor 2 (mkTutorRequest (py " i dont know ") None)) = [py "i dont know"].
Proof.
  assert (Hne : strip (message (mkTutorRequest (py " i dont know ") None)) <> [])
    by (vm_compute; discriminate).
  split; [exact Hne|].
  exact (tutor_calls_improve_once 2 (mkTutorRequest (py " i dont know ") None) Hne).
Defined.

(** X10: every response, whatever the request and the random draw, has at
    least one suggestion and a prompt, and the prompt is one of the four
    practice prompts or the fixed prompt of the answer to a blank message. *)
Theorem tutor_always_suggests_and_prompts (rnd : nat) (req : TutorRequest) :
  suggestions (value (tutor rnd req)) <> [] /\
  exists p, prompt (value (tutor rnd req)) = Some p /\
            (In p END_PROMPTS \/ p = EMPTY_PROMPT).
Proof.
  destruct (strip (message req)) as [|c t] eqn:Hstrip.
  - rewrite (tutor_blank rnd req Hstrip). split; [discriminate|].
    exists EMPTY_PROMPT. split; [reflexivity | right; reflexivity].
  - assert (Hne : strip (message req) <> []) by (rewrite Hstrip; discriminate).
    rewrite (tutor_answer rnd req Hne). cbn [value snd suggestions prompt]. split.
    + destruct (snd (basic_improve (strip (message req)))); discriminate.
    + exists (random_choice rnd END_PROMPTS).
      split; [reflexivity | left; apply random_choice_in].
Qed.

(** X11: the level changes nothing but the reply: the suggestions, the
    prompt and the calls to [basic_improve] are the same for any two
    levels. *)
Theorem tutor_level_only_changes_reply (rnd : nat) (msg : str) (l1 l2 : option str) :
  suggestions (value (tutor rnd (mkTutorRequest msg l1)))
  = suggestions (value (tutor rnd (mkTutorRequest msg l2))) /\
  prompt (value (tutor rnd (mkTutorRequest msg l1)))
  = prompt (value (tutor rnd (mkTutorRequest msg l2))) /\
  calls (tutor rnd (mkTutorRequest msg l1)) = calls (tutor rnd (mkTutorRequest msg l2)).
Proof.
  destruct (strip msg) as [|c t] eqn:Hstrip.
  - rewrite !tutor_blank by exact Hstrip. repeat split.
  - rewrite !tutor_answer by (cbn [message]; rewrite Hstrip; discriminate).
    repeat split.
Qed.

(** X12: whitespace around the message does not matter to the response. *)
Theorem tutor_ignores_outer_space (rnd : nat) (msg : str) (lvl : option str) :
  tutor rnd (mkTutorRequest (strip msg) lvl) = tutor rnd (mkTutorRequest msg lvl).
Proof.
  unfold tutor. cbn [message level]. rewrite strip_idempotent. reflexivity.
Qed.

(** X13: for a message that is not blank the reply, at every level, shows
    the improved string between single quotes. *)
Theorem tutor_reply_quotes_improved (rnd : nat) (req : TutorRequest) :
  strip (message req) <> [] ->
  str_in (quoted (fst (basic_improve (strip (message req)))))
         (reply (value (tutor rnd req))) = true.
Proof.
  intros Hne. rewrite (tutor_answer rnd req Hne). cbn [value snd reply].
  set (improved := fst (basic_improve (strip (message req)))).
  set (user_text := strip (message req)).
  destruct (level_eqb (level req) (py "beginner"));
    [|destruct (level_eqb (level req) (py "advanced"))].
  - replace (template_A user_text improved)
      with ((py "You said: '" ++ user_text ++ py "'. Here is a clearer version: ")
            ++ quoted improved
            ++ py ". Well done! Try to use full sentences and simple tenses.").
    + apply str_in_middle.
    + unfold template_A, quoted. repeat rewrite <- app_assoc. reflexivity.
  - replace (template_B improved)
      with (py "Your idea is good. A more natural phrasing is: "
            ++ quoted improved
            ++ py ". Consider adding specific details and varied vocabulary.").
    + apply str_in_middle.
    + unfold template_B, quoted. repeat rewrite <- app_assoc. reflexivity.
  - replace (template_C improved)
      with (py "Nice! You can say: "
            ++ quoted improved
            ++ py ". Keep practicing your rhythm and pronunciation.").
    + apply str_in_middle.
    + unfold template_C, quoted. repeat rewrite <- app_assoc. reflexivity.
Qed.

Lemma tutor_reply_quotes_improved_witness :
  strip (message (mkTutorRequest (py "she have a cat") (Some (py "advanced")))) <> [] /\
  str_in (py "'She has a cat.'")
         (reply (value (tutor 0 (mkTutorRequest (py "she have a cat")
                                                (Some (py "advanced")))))) = true.
Proof.
  assert (Hne : strip (message (mkTutorRequest (py "she have a cat")
                                               (Some (py "advanced")))) <> [])
    by (vm_compute; discriminate).
  split; [exact Hne|].
  exact (tutor_reply_quotes_improved 0
           (mkTutorRequest (py "she have a cat") (Some (py "advanced"))) Hne).
Defined.

(** X14: at a level other than "beginner", two messages that differ only
    in letter case get the same reply. *)
Theorem tutor_reply_ignores_case (rnd : nat) (m1 m2 : str) (lvl : option str) :
  lvl <> Some (py "beginner") ->
  lower m1 = lower m2 ->
  reply (value (tutor rnd (mkTutorRequest m1 lvl)))
  = reply (value (tutor rnd (mkTutorRequest m2 lvl))).
Proof.
  intros Hlvl Hcase.
  pose proof (lowered_strip_of_lower m1 m2 Hcase) as Hstrip.
  destruct (strip m1) as [|c1 t1] eqn:H1.
  - assert (H2 : strip m2 = []) by (apply lower_nil; rewrite <- Hstrip; reflexivity).
    rewrite !tutor_blank by assumption. reflexivity.
  - assert (H2 : strip m2 <> []).
    { intros H2. rewrite H2 in Hstrip. discriminate. }
    assert (Himp : fst (basic_improve (strip m1)) = fst (basic_improve (strip m2))).
    { apply improved_of_lower. rewrite H1. exact Hstrip. }
    rewrite !tutor_answer by (cbn [message]; rewrite ?H1; try exact H2; discriminate).
    cbn [value snd reply message level]. rewrite H1 in *.
    destruct (level_eqb lvl (py "beginner")) eqn:EA.
    { apply level_eqb_eq in EA. contradiction. }
    rewrite Himp. reflexivity.
Qed.

Lemma tutor_reply_ignores_case_witness :
  Some (py "advanced") <> Some (py "beginner") /\
  lower (py "HE HAVE a dog") = lower (py "he have A DOG") /\
  reply (value (tutor 1 (mkTutorRequest (py "HE HAVE a dog") (Some (py "advanced")))))
  = reply (value (tutor 1 (mkTutorRequest (py "he have A DOG") (Some (py "advanced"))))).
Proof.
  assert (Hlvl : Some (py "advanced") <> Some (py "beginner")) by discriminate.
  split; [exact Hlvl|]. split; [reflexivity|].
  exact (tutor_reply_ignores_case 1 (py "HE HAVE a dog") (py "he have A DOG")
           (Some (py "advanced")) Hlvl eq_refl).
Defined.

(** ** Further properties of the diagnostic endpoint *)

(** X15: whenever the diagnostic returns, the backend is reported as
    running, and the connection status is "Connected" exactly when the
    import gave a handle that is not null and the lookup of its name
    returned, also when listing its collections then fails; a name lookup
    that raises leaves it "Not Connected". *)
Theorem test_database_connection_status
  (import_db : result (option Database)) (environ : str -> option str)
  (response : TestResponse) :
  test_database import_db environ = Ok response ->
  backend response = py "✅ Running" /\
  connection_status response
  = (if handle_ready import_db then py "Connected" else py "Not Connected").
Proof.
  destruct import_db as [[db|]|[msg|msg|msg]]; run_test_database;
    cbn [handle_ready].
  - destruct (db_name db) as [name|[msg|msg|msg]]; cbn -[py take getenv_truthy];
      [destruct (list_collection_names db) as [names|[msg|msg|msg]];
       cbn -[py take getenv_truthy]| | |];
      intros H; inversion H; subst; split; reflexivity.
  - intros H; inversion H; subst; split; reflexivity.
  - intros H; inversion H; subst; split; reflexivity.
  - intros H; inversion H; subst; split; reflexivity.
  - discriminate.
Qed.

Lemma test_database_connection_status_witness :
  exists response,
    test_database
      (Ok (Some (mkDatabase (Raise (OtherException (py "no name")))
                            (Ok [py "users"]))))
      (fun _ => None) = Ok response /\
    backend response = py "✅ Running" /\
    connection_status response = py "Not Connected".
Proof.
  eexists. split; [vm_compute; reflexivity|].
  apply (test_database_connection_status
           (Ok (Some (mkDatabase (Raise (OtherException (py "no name")))
                                 (Ok [py "users"]))))
           (fun _ => None)).
  vm_compute. reflexivity.
Defined.

(** X16: when the lookup of the handle's name returns, what it returns
    never reaches the response: two handles that differ only in it give
    the same diagnostic. *)
Theorem test_database_ignores_db_name
  (name1 name2 : option str) (listing : result (list str))
  (environ : str -> option str) :
  test_database (Ok (Some (mkDatabase (Ok name1) listing))) environ
  = test_database (Ok (Some (mkDatabase (Ok name2) listing))) environ.
Proof.
  run_test_database. destruct listing as [names|[msg|msg|msg]]; reflexivity.
Qed.

(** X17: when the lookup of the handle's name returns and the listing
    succeeds with at most ten names, all of them are reported, in order,
    and the database is reported as working. *)
Theorem test_database_lists_all
  (db : Database) (name : option str) (names : list str)
  (environ : str -> option str) :
  db_name db = Ok name ->
  list_collection_names db = Ok names ->
  length names <= 10 ->
  exists response,
    test_database (Ok (Some db)) environ = Ok response /\
    collections response = names /\
    database response = py "✅ Connected & Working".
Proof.
  intros Hname Hlist Hlen. run_test_database. rewrite Hname.
  cbn -[py take getenv_truthy]. rewrite Hlist.
  cbn -[py take getenv_truthy]. eexists. repeat split.
  cbn [collections]. unfold take. apply firstn_all2. exact Hlen.
Qed.

Lemma test_database_lists_all_witness :
  db_name (mkDatabase (Ok None) (Ok [py "users"; py "lessons"])) = Ok None /\
  list_collection_names (mkDatabase (Ok None) (Ok [py "users"; py "lessons"]))
  = Ok [py "users"; py "lessons"] /\
  length [py "users"; py "lessons"] <= 10 /\
  exists response,
    test_database (Ok (Some (mkDatabase (Ok None) (Ok [py "users"; py "lessons"]))))
                  (fun _ => None) = Ok response /\
    collections response = [py "users"; py "lessons"] /\
    database response = py "✅ Connected & Working".
Proof.
  split; [reflexivity|]. split; [reflexivity|].
  assert (Hlen : length [py "users"; py "lessons"] <= 10) by (simpl; lia).
  split; [exact Hlen|].
  exact (test_database_lists_all
           (mkDatabase (Ok None) (Ok [py "users"; py "lessons"])) None
           [py "users"; py "lessons"] (fun _ => None) eq_refl eq_refl Hlen).
Defined.
